(** * WASI stubs of the Unix library and the cross-test bootstrap

    A shallow embedding of

    - [otherlibs/unix/wasi_unavailable.c]: the C primitives of the Unix
      library that cannot be provided on WASI; each one raises
      [Invalid_argument] through the runtime's [caml_invalid_argument];
    - [testsuite/cross/link.c]: the [init] function that builds an argument
      vector and hands it to [caml_startup].

    C functions returning [value] become functions into a state-and-exception
    monad over an abstract program state; preprocessor macros that define
    functions become Rocq functions that build the defined primitive. *)

From Stdlib Require Import List String Ascii ZArith Bool Lia.
Import ListNotations.
Local Open Scope string_scope.

(** ** The runtime interface ([caml/mlvalues.h], [caml/fail.h]) *)

Module Caml.

(** [typedef intnat value;] -- a machine word, never inspected by the stubs. *)
Definition value : Type := Z.

(** The predefined exceptions a C primitive can raise through [caml/fail.h]. *)
Inductive exn_tag : Type :=
| Out_of_memory
| Sys_error
| Failure
| Invalid_argument
| End_of_file
| Division_by_zero
| Not_found
| Stack_overflow
| Sys_blocked_io.

(** An exception value: its constructor and its string argument. *)
Record exn : Type := Exn { exn_kind : exn_tag; exn_arg : string }.

(** How a call of a C primitive ends. *)
Inductive outcome (A : Type) : Type :=
| Returns (a : A)
| Raises (e : exn).
Arguments Returns {A} a.
Arguments Raises {A} e.

(** A computation over the program state [world]: heap, file descriptors,
    processes, signal masks, logs -- whatever the embedding program can
    observe.  It is left abstract, so a statement that holds for every
    [world] holds for every notion of observable state. *)
Definition prim (world A : Type) : Type := world -> outcome A * world.

(** Modelled from the spec: [caml_invalid_argument] is declared in
    [caml/fail.h] and defined in the runtime ([runtime/fail_*.c]), which is
    not part of the sources at hand.  It never returns: it raises
    [Invalid_argument] with the given message, which is the only thing the
    caller can observe of it. *)
Definition caml_invalid_argument {world A : Type} (msg : string) : prim world A :=
  fun w => (Raises (Exn Invalid_argument msg), w).

(** What an outcome carries when it is an exception. *)
Definition raised {A : Type} (o : outcome A) : option exn :=
  match o with
  | Returns _ => None
  | Raises e => Some e
  end.

Definition raised_message {A : Type} (o : outcome A) : option string :=
  option_map exn_arg (raised o).

End Caml.

(** ** [otherlibs/unix/wasi_unavailable.c] *)

Module WasiUnavailable.
Import Caml.

Section Stubs.

Variable world : Type.

(** A C function taking one to five [value]s and returning a [value]. *)
Inductive cfun : Type :=
| Fun1 (f : value -> prim world value)
| Fun2 (f : value -> value -> prim world value)
| Fun3 (f : value -> value -> value -> prim world value)
| Fun4 (f : value -> value -> value -> value -> prim world value)
| Fun5 (f : value -> value -> value -> value -> value -> prim world value).

(** What one use of an [UNAVAILABLEn] macro defines: the C symbol [cname],
    the OCaml-level name [camlname] it was given, and the function. *)
Record primitive : Type := Primitive {
  cname : string;
  camlname : string;
  code : cfun
}.

(** The five macros, as written (the third one spells its suffix
    differently from the others). *)
Definition UNAVAILABLE1 (cname camlname : string) : primitive :=
  Primitive cname camlname
    (Fun1 (fun arg1 =>
       caml_invalid_argument (camlname ++ " not available"))).

Definition UNAVAILABLE2 (cname camlname : string) : primitive :=
  Primitive cname camlname
    (Fun2 (fun arg1 arg2 =>
       caml_invalid_argument (camlname ++ " not available"))).

Definition UNAVAILABLE3 (cname camlname : string) : primitive :=
  Primitive cname camlname
    (Fun3 (fun arg1 arg2 arg3 =>
       caml_invalid_argument (camlname ++ " not vailable"))).

Definition UNAVAILABLE4 (cname camlname : string) : primitive :=
  Primitive cname camlname
    (Fun4 (fun arg1 arg2 arg3 arg4 =>
       caml_invalid_argument (camlname ++ " not available"))).

Definition UNAVAILABLE5 (cname camlname : string) : primitive :=
  Primitive cname camlname
    (Fun5 (fun arg1 arg2 arg3 arg4 arg5 =>
       caml_invalid_argument (camlname ++ " not available"))).

(** The translation unit: the 36 primitives, in the order of the file. *)
Definition wasi_unavailable : list primitive :=
  [ UNAVAILABLE1 "unix_wait" "Unix.wait";
    UNAVAILABLE2 "unix_waitpid" "Unix.waitpid";
    UNAVAILABLE2 "unix_sigprocmask" "Unix.sigprocmask";
    UNAVAILABLE1 "unix_sigpending" "Unix.sigpending";
    UNAVAILABLE1 "unix_sigsuspend" "Unix.sigsuspend";
    UNAVAILABLE2 "unix_kill" "Unix.kill";
    UNAVAILABLE1 "unix_getpwnam" "Unix.getpwnam";
    UNAVAILABLE1 "unix_getpwuid" "Unix.getpwuid";
    UNAVAILABLE1 "unix_getgrnam" "Unix.getgrnam";
    UNAVAILABLE1 "unix_getgrgid" "Unix.getgrgid";
    UNAVAILABLE1 "unix_alarm" "Unix.alarm";
    UNAVAILABLE2 "unix_chmod" "Unix.chmod";
    UNAVAILABLE3 "unix_chown" "Unix.chown";
    UNAVAILABLE1 "unix_chroot" "Unix.chroot";
    UNAVAILABLE2 "unix_dup" "Unix.dup";
    UNAVAILABLE3 "unix_dup2" "Unix.dup2";
    UNAVAILABLE2 "unix_execv" "Unix.execv";
    UNAVAILABLE3 "unix_execve" "Unix.execve";
    UNAVAILABLE2 "unix_execvp" "Unix.execvp";
    UNAVAILABLE3 "unix_execvpe" "Unix.execvpe";
    UNAVAILABLE1 "unix_fork" "Unix.fork";
    UNAVAILABLE1 "unix_getegid" "Unix.getegid";
    UNAVAILABLE1 "unix_geteuid" "Unix.geteuid";
    UNAVAILABLE1 "unix_getgid" "Unix.getgid";
    UNAVAILABLE1 "unix_getlogin" "Unix.getlogin";
    UNAVAILABLE1 "unix_getuid" "Unix.getuid";
    UNAVAILABLE1 "unix_gethostname" "Unix.gethostname";
    UNAVAILABLE1 "unix_getpid" "Unix.getpid";
    UNAVAILABLE1 "unix_getppid" "Unix.getppid";
    UNAVAILABLE2 "unix_mkfifo" "Unix.mkfifo";
    UNAVAILABLE2 "unix_pipe" "Unix.pipe";
    UNAVAILABLE1 "unix_setgid" "Unix.setgid";
    UNAVAILABLE1 "unix_setsid" "Unix.setsid";
    UNAVAILABLE1 "unix_setuid" "Unix.setuid";
    UNAVAILABLE5 "unix_spawn" "Unix.spawn";
    UNAVAILABLE1 "unix_umask" "Unix.umask" ].

(** The number of parameters of the C function. *)
Definition arity_of (f : cfun) : nat :=
  match f with
  | Fun1 _ => 1
  | Fun2 _ => 2
  | Fun3 _ => 3
  | Fun4 _ => 4
  | Fun5 _ => 5
  end.

Definition arity (p : primitive) : nat := arity_of (code p).

(** Calling a C function on an argument list: defined exactly when the
    number of arguments is the number of parameters (a call site with
    another count does not compile against the prototype). *)
Definition apply (f : cfun) (args : list value) : option (prim world value) :=
  match f, args with
  | Fun1 f, [a1] => Some (f a1)
  | Fun2 f, [a1; a2] => Some (f a1 a2)
  | Fun3 f, [a1; a2; a3] => Some (f a1 a2 a3)
  | Fun4 f, [a1; a2; a3; a4] => Some (f a1 a2 a3 a4)
  | Fun5 f, [a1; a2; a3; a4; a5] => Some (f a1 a2 a3 a4 a5)
  | _, _ => None
  end.

(** Running a primitive on arguments from a program state. *)
Definition call (p : primitive) (args : list value) (w : world)
  : option (outcome value * world) :=
  option_map (fun c => c w) (apply (code p) args).

(** Resolving a C symbol against the translation unit. *)
Definition resolve (sym : string) : option primitive :=
  find (fun p => String.eqb (cname p) sym) wasi_unavailable.

Definition call_symbol (sym : string) (args : list value) (w : world)
  : option (outcome value * world) :=
  match resolve sym with
  | Some p => call p args w
  | None => None
  end.

(** The suffix a stub of the given number of parameters appends. *)
Definition suffix (n : nat) : string :=
  if Nat.eqb n 3 then " not vailable" else " not available".

(** The message a stub passes to [caml_invalid_argument]. *)
Definition message (p : primitive) : string :=
  camlname p ++ suffix (arity p).

End Stubs.

Arguments cname {world} p.
Arguments camlname {world} p.
Arguments code {world} p.
Arguments arity {world} p.
Arguments arity_of {world} f.
Arguments apply {world} f args.
Arguments call {world} p args w.
Arguments message {world} p.

(** The primitives the five macros can define, whatever C symbol and
    OCaml-level name they are given. *)
Inductive expansion {world : Type} : primitive world -> Prop :=
| expansion1 (c n : string) : expansion (UNAVAILABLE1 world c n)
| expansion2 (c n : string) : expansion (UNAVAILABLE2 world c n)
| expansion3 (c n : string) : expansion (UNAVAILABLE3 world c n)
| expansion4 (c n : string) : expansion (UNAVAILABLE4 world c n)
| expansion5 (c n : string) : expansion (UNAVAILABLE5 world c n).

End WasiUnavailable.

(** ** The catalogue of the specification *)

Module Spec.

(** The catalogue as the specification lists it (name, arity), in its
    order.  This is the table of the document, not of the C file; the two
    are compared below. *)
Definition spec_catalog : list (string * nat) :=
  [ ("wait", 1); ("waitpid", 2); ("sigprocmask", 2); ("sigpending", 1);
    ("sigsuspend", 1); ("kill", 2); ("getpwnam", 1); ("getpwuid", 1);
    ("getgrnam", 1); ("getgrgid", 1); ("alarm", 1); ("chmod", 2);
    ("chown", 3); ("chroot", 1); ("dup", 2); ("dup2", 3); ("execv", 2);
    ("execve", 3); ("execvp", 2); ("execvpe", 3); ("fork", 1);
    ("getegid", 1); ("geteuid", 1); ("getgid", 1); ("getlogin", 1);
    ("getuid", 1); ("gethostname", 1); ("getpid", 1); ("getppid", 1);
    ("mkfifo", 2); ("pipe", 2); ("setgid", 1); ("setsid", 1);
    ("setuid", 1); ("spawn", 5); ("umask", 1) ].

(** The message the specification promises for a canonical name. *)
Definition spec_message (name : string) : string := name ++ " not available".

(** A boolean test that a list of strings has no repetition. *)
Fixpoint nodupb (l : list string) : bool :=
  match l with
  | [] => true
  | s :: l' => negb (existsb (String.eqb s) l') && nodupb l'
  end.

End Spec.

(** ** [testsuite/cross/link.c] *)

Module Link.

(** A [char] cell of an automatic array: indeterminate until written. *)
Definition cell : Type := option ascii.

(** The [char *] values [init] handles: the null pointer, a string literal
    of the program, the address of the local array [buf] (with what the
    array holds when the pointer is handed over), or a string owned by the
    C library. *)
Inductive charp : Type :=
| NULL
| Literal (s : string)
| Buf (contents : list cell)
| Static (s : string).

(** What the build and the operating system decide for [init]: which of
    the two platform macros are defined, the value of [PATH_MAX] from
    [<limits.h>], what [getprogname()] returns (nothing for a null
    pointer), and what [readlink(path, buf, bufsiz)] returns and leaves in
    the buffer. *)
Record platform : Type := Platform {
  APPLE : bool;
  LINUX : bool;
  PATH_MAX : nat;
  getprogname : option string;
  readlink : string -> list cell -> nat -> Z * list cell
}.

(** The calls [init] makes to the runtime. *)
Inductive event : Type :=
| caml_startup (argv : list charp).

Definition is_null (p : charp) : bool :=
  match p with
  | NULL => true
  | _ => false
  end.

(** [void init(void)], statement by statement; the result is the sequence
    of runtime calls it performs. *)
Definition init (pf : platform) : list event :=
  (* char buf[PATH_MAX]; *)
  let buf : list cell := repeat None (PATH_MAX pf) in
  (* progname = NULL; *)
  let progname := NULL in
  (* #ifdef __APPLE__  progname = (char * ) getprogname(); *)
  let progname :=
    if APPLE pf then
      match getprogname pf with
      | Some s => Static s
      | None => NULL
      end
    else progname in
  (* #ifdef __linux__  if (readlink(...) >= 0) progname = buf; *)
  let progname :=
    if LINUX pf then
      let '(n, buf') := readlink pf "/proc/self/exe" buf (PATH_MAX pf) in
      if (n >=? 0)%Z then Buf buf' else progname
    else progname in
  (* if (progname == NULL) progname = "/unknown/program/name"; *)
  let progname :=
    if is_null progname then Literal "/unknown/program/name" else progname in
  (* argv[0] = progname; argv[1] = NULL; caml_startup(argv); *)
  let argv := [progname; NULL] in
  [caml_startup argv].

(** Path discovery came back empty: the Apple branch is compiled out or
    [getprogname] gave a null pointer, and the Linux branch is compiled out
    or [readlink] failed. *)
Definition nothing_discovered (pf : platform) : Prop :=
  (APPLE pf = false \/ getprogname pf = None) /\
  (LINUX pf = false \/
   (fst (readlink pf "/proc/self/exe" (repeat None (PATH_MAX pf)) (PATH_MAX pf)) < 0)%Z).

(** A Linux host whose [readlink] fails with -1 and leaves the buffer
    alone, and one where it succeeds and writes the name it is given. *)
Definition linux_readlink_fails : platform :=
  Platform false true 4096 None (fun _ buf _ => ((-1)%Z, buf)).

Definition write_prefix (s : string) (buf : list cell) : list cell :=
  map Some (list_ascii_of_string s) ++ skipn (String.length s) buf.

Definition linux_readlink_ok (exe : string) : platform :=
  Platform false true 4096 None
    (fun _ buf _ => (Z.of_nat (String.length exe), write_prefix exe buf)).

(** The C string that starts at the first cell of an array: the characters
    before the first NUL.  There is none when an indeterminate cell, or the
    end of the array, comes before a NUL. *)
Fixpoint c_string (cells : list cell) : option string :=
  match cells with
  | [] => None
  | None :: _ => None
  | Some c :: rest =>
      if Ascii.eqb c zero then Some EmptyString
      else option_map (String c) (c_string rest)
  end.

(** [readlink] as POSIX describes it, on a link whose contents are
    [target]: it copies at most [bufsiz] bytes of the contents to the front
    of the buffer, returns how many, and appends no terminating NUL. *)
Definition posix_readlink (target : string)
    (path : string) (buf : list cell) (bufsiz : nat) : Z * list cell :=
  let written := firstn bufsiz (list_ascii_of_string target) in
  (Z.of_nat (List.length written),
   (map Some written ++ skipn (List.length written) buf)%list).

(** A Linux host with the given [PATH_MAX] on which [/proc/self/exe]
    points to [target]. *)
Definition linux_host (path_max : nat) (target : string) : platform :=
  Platform false true path_max None (posix_readlink target).

End Link.

(** * Properties *)

Import Caml WasiUnavailable.

(** ** Shared lemmas *)

(** Case analysis over the members of the translation unit. *)
Ltac each_stub H :=
  unfold wasi_unavailable in H; simpl In in H;
  repeat (destruct H as [H | H]; [subst | ]); [ .. | contradiction ].

(** Argument lists of a known length, made explicit. *)
Ltac split_args args :=
  destruct args as [| ?a1 [| ?a2 [| ?a3 [| ?a4 [| ?a5 [| ?a6 ?rest]]]]]].

Ltac explicit_args args H :=
  split_args args; simpl in H; try discriminate H.

Lemma apply_defined_iff (world : Type) (f : cfun world) (args : list value) :
  (exists c, apply f args = Some c) <-> List.length args = arity_of f.
Proof.
  split.
  - intros [c H]; destruct f; split_args args; simpl in H;
      first [discriminate H | reflexivity].
  - intros H; destruct f; split_args args; simpl in H;
      first [discriminate H | eexists; reflexivity].
Qed.

(** Every stub, called with as many arguments as it has parameters, raises
    [Invalid_argument] with [message p] and hands the state back as it
    got it. *)
Lemma call_stub (world : Type) (p : primitive world) (args : list value) (w : world) :
  In p (wasi_unavailable world) ->
  List.length args = arity p ->
  call p args w = Some (Raises (Exn Invalid_argument (message p)), w).
Proof.
  intros Hin Hlen.
  each_stub Hin; explicit_args args Hlen; reflexivity.
Qed.

Lemma prefix_app (s t : string) : String.prefix s (s ++ t) = true.
Proof.
  induction s as [| c s IH]; simpl.
  - destruct t; reflexivity.
  - destruct (Ascii.ascii_dec c c) as [_ | Hne]; [exact IH | contradiction].
Qed.

Lemma prefix_app_l (r s t : string) :
  String.prefix r s = true -> String.prefix r (s ++ t) = true.
Proof.
  revert s; induction r as [| c r IH]; intros s H; simpl in *.
  - destruct (s ++ t); reflexivity.
  - destruct s as [| d s]; [discriminate H | simpl in H |- *].
    destruct (Ascii.ascii_dec c d); [auto | discriminate H].
Qed.

Lemma message_prefix (world : Type) (p : primitive world) :
  String.prefix (camlname p) (message p) = true.
Proof. apply prefix_app. Qed.

Lemma camlname_Unix (world : Type) (p : primitive world) :
  In p (wasi_unavailable world) -> String.prefix "Unix." (camlname p) = true.
Proof. intros Hin; each_stub Hin; reflexivity. Qed.

Lemma existsb_eqb_In (s : string) (l : list string) :
  In s l -> existsb (String.eqb s) l = true.
Proof.
  intros H; apply existsb_exists; exists s; split; [exact H | apply String.eqb_refl].
Qed.

Lemma nodupb_NoDup (l : list string) : Spec.nodupb l = true -> NoDup l.
Proof.
  induction l as [| s l IH]; simpl; intros H; constructor.
  - apply andb_prop in H; destruct H as [H _].
    intros Hin; rewrite (existsb_eqb_In _ _ Hin) in H; discriminate H.
  - apply IH; apply andb_prop in H; tauto.
Qed.

(** A function whose image of a list has no repetition is injective on the
    members of that list. *)
Lemma NoDup_map_inj {A B : Type} (f : A -> B) (l : list A) :
  NoDup (map f l) -> forall x y, In x l -> In y l -> f x = f y -> x = y.
Proof.
  induction l as [| a l IH]; simpl; intros Hnd x y Hx Hy Hxy; [contradiction | ].
  inversion Hnd as [| ? ? Hnotin Hnd']; subst.
  destruct Hx as [-> | Hx], Hy as [-> | Hy].
  - reflexivity.
  - exfalso; apply Hnotin; rewrite Hxy; apply in_map; exact Hy.
  - exfalso; apply Hnotin; rewrite <- Hxy; apply in_map; exact Hx.
  - apply IH; assumption.
Qed.

Lemma camlnames_NoDup (world : Type) :
  NoDup (map camlname (wasi_unavailable world)).
Proof. apply nodupb_NoDup; vm_compute; reflexivity. Qed.

Lemma messages_NoDup (world : Type) :
  NoDup (map message (wasi_unavailable world)).
Proof. apply nodupb_NoDup; vm_compute; reflexivity. Qed.

(** The stubs of one, two, four or five parameters give the message of the
    specification; the ones of three parameters are left out here. *)
Lemma message_available (world : Type) (p : primitive world) :
  In p (wasi_unavailable world) ->
  arity p <> 3 ->
  message p = Spec.spec_message (camlname p).
Proof.
  intros _ H3; unfold message, suffix, Spec.spec_message.
  destruct (Nat.eqb_spec (arity p) 3); [contradiction | reflexivity].
Qed.

(** ** The stubs *)

(** C1.  The claim is that every one of the 36 stubs raises the message
    [<name> not available].  The stub [unix_chown], one of the four
    defined through [UNAVAILABLE3], is called here with three arbitrary
    arguments: it raises [Unix.chown not vailable], which is not the
    promised [Unix.chown not available]. *)
Theorem chown_message_misspelt (world : Type) (a1 a2 a3 : value) (w : world) :
  (exists p, resolve world "unix_chown" = Some p /\
             In p (wasi_unavailable world) /\
             camlname p = "Unix.chown" /\ arity p = 3) /\
  call_symbol world "unix_chown" [a1; a2; a3] w =
    Some (Raises (Exn Invalid_argument "Unix.chown not vailable"), w) /\
  "Unix.chown not vailable" <> Spec.spec_message "Unix.chown".
Proof.
  split; [ | split].
  - eexists; split; [reflexivity | ].
    split; [ | split; reflexivity].
    do 12 right; left; reflexivity.
  - reflexivity.
  - discriminate.
Qed.

(** C2.  A stub never returns a value: called with as many arguments as it
    has parameters, from any state, it ends by raising an exception, and
    no argument list and state make it end with [Returns]. *)
Theorem stub_never_returns (world : Type) (p : primitive world)
    (args : list value) (w : world) :
  In p (wasi_unavailable world) ->
  List.length args = arity p ->
  (exists e w', call p args w = Some (Raises e, w')) /\
  (forall v w', call p args w <> Some (Returns v, w')).
Proof.
  intros Hin Hlen; rewrite (call_stub _ _ _ _ Hin Hlen); split.
  - eexists; eexists; reflexivity.
  - intros v w' H; discriminate H.
Qed.

Lemma stub_never_returns_witness :
  In (UNAVAILABLE2 unit "unix_kill" "Unix.kill") (wasi_unavailable unit) /\
  List.length [7; 9]%Z = arity (UNAVAILABLE2 unit "unix_kill" "Unix.kill") /\
  (exists e w', call (UNAVAILABLE2 unit "unix_kill" "Unix.kill") [7; 9]%Z tt
                = Some (Raises e, w')) /\
  (forall v w', call (UNAVAILABLE2 unit "unix_kill" "Unix.kill") [7; 9]%Z tt
                <> Some (Returns v, w')).
Proof.
  assert (Hin : In (UNAVAILABLE2 unit "unix_kill" "Unix.kill") (wasi_unavailable unit))
    by (do 5 right; left; reflexivity).
  split; [exact Hin | ].
  split; [reflexivity | ].
  exact (stub_never_returns unit _ [7; 9]%Z tt Hin eq_refl).
Defined.

(** C3.  The C functions have the arities of the catalogue of the
    specification: entry by entry and in the same order, the symbol
    [unix_<name>] carries the name [Unix.<name>] and has as many parameters
    as the catalogue says; every arity lies between 1 and 5; and a function
    can be called on an argument list exactly when the list has that many
    elements. *)
Theorem arities_match_catalog (world : Type) :
  map (fun p => (cname p, camlname p, arity p)) (wasi_unavailable world) =
    map (fun e => ("unix_" ++ fst e, "Unix." ++ fst e, snd e)) Spec.spec_catalog /\
  Forall (fun p => 1 <= arity p <= 5) (wasi_unavailable world) /\
  Forall (fun p => forall args : list value,
            (exists c, apply (code p) args = Some c) <-> List.length args = arity p)
         (wasi_unavailable world).
Proof.
  split; [reflexivity | split].
  - unfold wasi_unavailable; repeat constructor.
  - apply Forall_forall; intros p _ args; apply apply_defined_iff.
Qed.

(** C4.  The failure does not depend on the arguments: two calls of the
    same stub, on any two argument lists and from any two states, raise
    the very same exception, hence the same message, byte for byte. *)
Theorem stub_message_independent_of_arguments (world : Type)
    (p : primitive world) (args1 args2 : list value) (w1 w2 : world) :
  In p (wasi_unavailable world) ->
  List.length args1 = arity p ->
  List.length args2 = arity p ->
  exists msg,
    option_map (fun r => raised_message (fst r)) (call p args1 w1) = Some (Some msg) /\
    option_map (fun r => raised_message (fst r)) (call p args2 w2) = Some (Some msg).
Proof.
  intros Hin H1 H2; exists (message p).
  rewrite (call_stub _ _ _ _ Hin H1), (call_stub _ _ _ _ Hin H2).
  split; reflexivity.
Qed.

Lemma stub_message_independent_of_arguments_witness :
  In (UNAVAILABLE3 nat "unix_dup2" "Unix.dup2") (wasi_unavailable nat) /\
  List.length [0; 1; 2]%Z = arity (UNAVAILABLE3 nat "unix_dup2" "Unix.dup2") /\
  List.length [-5; 40; 3]%Z = arity (UNAVAILABLE3 nat "unix_dup2" "Unix.dup2") /\
  exists msg,
    option_map (fun r => raised_message (fst r))
      (call (UNAVAILABLE3 nat "unix_dup2" "Unix.dup2") [0; 1; 2]%Z 10) = Some (Some msg) /\
    option_map (fun r => raised_message (fst r))
      (call (UNAVAILABLE3 nat "unix_dup2" "Unix.dup2") [-5; 40; 3]%Z 20) = Some (Some msg).
Proof.
  assert (Hin : In (UNAVAILABLE3 nat "unix_dup2" "Unix.dup2") (wasi_unavailable nat))
    by (do 15 right; left; reflexivity).
  split; [exact Hin | ].
  split; [reflexivity | ].
  split; [reflexivity | ].
  exact (stub_message_independent_of_arguments nat _ [0; 1; 2]%Z [-5; 40; 3]%Z 10 20
           Hin eq_refl eq_refl).
Defined.

(** C5.  All stubs fail with one kind of error: whichever stub is called,
    the exception is an [Invalid_argument], and its payload starts with the
    OCaml-level name of the stub. *)
Theorem stubs_raise_one_kind (world : Type) (p : primitive world)
    (args : list value) (w : world) :
  In p (wasi_unavailable world) ->
  List.length args = arity p ->
  exists msg w',
    call p args w = Some (Raises (Exn Invalid_argument msg), w') /\
    String.prefix (camlname p) msg = true.
Proof.
  intros Hin Hlen; exists (message p), w; split.
  - apply call_stub; assumption.
  - apply message_prefix.
Qed.

Lemma stubs_raise_one_kind_witness :
  In (UNAVAILABLE5 unit "unix_spawn" "Unix.spawn") (wasi_unavailable unit) /\
  List.length [1; 2; 3; 4; 5]%Z = arity (UNAVAILABLE5 unit "unix_spawn" "Unix.spawn") /\
  exists msg w',
    call (UNAVAILABLE5 unit "unix_spawn" "Unix.spawn") [1; 2; 3; 4; 5]%Z tt
      = Some (Raises (Exn Invalid_argument msg), w') /\
    String.prefix "Unix.spawn" msg = true.
Proof.
  assert (Hin : In (UNAVAILABLE5 unit "unix_spawn" "Unix.spawn") (wasi_unavailable unit))
    by (do 34 right; left; reflexivity).
  split; [exact Hin | ].
  split; [reflexivity | ].
  exact (stubs_raise_one_kind unit _ [1; 2; 3; 4; 5]%Z tt Hin eq_refl).
Defined.

(** C6.  A stub has no effect besides the exception: whatever the program
    state is made of (files, processes, signal masks, logs), the state
    after the call is the state before it, and the only thing that comes
    out of the call is the raised exception. *)
Theorem stub_preserves_world (world : Type) (p : primitive world)
    (args : list value) (w : world) :
  In p (wasi_unavailable world) ->
  List.length args = arity p ->
  exists e, call p args w = Some (Raises e, w).
Proof.
  intros Hin Hlen; eexists; apply call_stub; assumption.
Qed.

Lemma stub_preserves_world_witness :
  In (UNAVAILABLE2 (list string) "unix_pipe" "Unix.pipe")
     (wasi_unavailable (list string)) /\
  List.length [1; 0]%Z = arity (UNAVAILABLE2 (list string) "unix_pipe" "Unix.pipe") /\
  exists e,
    call (UNAVAILABLE2 (list string) "unix_pipe" "Unix.pipe") [1; 0]%Z ["log line"]
      = Some (Raises e, ["log line"]).
Proof.
  assert (Hin : In (UNAVAILABLE2 (list string) "unix_pipe" "Unix.pipe")
                   (wasi_unavailable (list string)))
    by (do 30 right; left; reflexivity).
  split; [exact Hin | ].
  split; [reflexivity | ].
  exact (stub_preserves_world (list string) _ [1; 0]%Z ["log line"] Hin eq_refl).
Defined.

(** C7.  Calling [unix_fork] with its one argument raises exactly
    [Unix.fork not available], and calling [unix_spawn] with any five
    arguments raises exactly [Unix.spawn not available]. *)
Theorem fork_and_spawn_messages (world : Type) (w : world)
    (a b1 b2 b3 b4 b5 : value) :
  call_symbol world "unix_fork" [a] w =
    Some (Raises (Exn Invalid_argument "Unix.fork not available"), w) /\
  call_symbol world "unix_spawn" [b1; b2; b3; b4; b5] w =
    Some (Raises (Exn Invalid_argument "Unix.spawn not available"), w).
Proof. split; reflexivity. Qed.

(** C8.  The OCaml-level names are unique: the translation unit has 36
    entries, no two of them carry the same name, and two entries that
    raise the same message are one and the same entry. *)
Theorem camlnames_unique (world : Type) :
  List.length (wasi_unavailable world) = 36 /\
  NoDup (map camlname (wasi_unavailable world)) /\
  (forall (p q : primitive world) (args_p args_q : list value) (w_p w_q : world)
          (msg : string),
     In p (wasi_unavailable world) ->
     In q (wasi_unavailable world) ->
     option_map (fun r => raised_message (fst r)) (call p args_p w_p) = Some (Some msg) ->
     option_map (fun r => raised_message (fst r)) (call q args_q w_q) = Some (Some msg) ->
     p = q).
Proof.
  split; [reflexivity | split; [apply camlnames_NoDup | ]].
  intros p q args_p args_q w_p w_q msg Hp Hq Cp Cq.
  apply (NoDup_map_inj message _ (messages_NoDup world)); [assumption .. | ].
  assert (Lp : List.length args_p = arity p).
  { apply apply_defined_iff; unfold call in Cp.
    destruct (apply (code p) args_p) as [c | ]; [eexists; reflexivity | discriminate Cp]. }
  assert (Lq : List.length args_q = arity q).
  { apply apply_defined_iff; unfold call in Cq.
    destruct (apply (code q) args_q) as [c | ]; [eexists; reflexivity | discriminate Cq]. }
  rewrite (call_stub _ _ _ _ Hp Lp) in Cp; rewrite (call_stub _ _ _ _ Hq Lq) in Cq.
  unfold option_map, raised_message, raised, fst, exn_arg in Cp, Cq.
  injection Cp as Cp; injection Cq as Cq.
  rewrite Cp, Cq; reflexivity.
Qed.

Lemma camlnames_unique_witness :
  List.length (wasi_unavailable unit) = 36 /\
  NoDup (map camlname (wasi_unavailable unit)) /\
  (forall q : primitive unit,
     In q (wasi_unavailable unit) ->
     option_map (fun r => raised_message (fst r)) (call q [3; 4; 5]%Z tt)
       = Some (Some "Unix.execve not vailable") ->
     UNAVAILABLE3 unit "unix_execve" "Unix.execve" = q).
Proof.
  destruct (camlnames_unique unit) as (Hlen & Hnd & Hinj).
  split; [exact Hlen | ].
  split; [exact Hnd | ].
  intros q Hq Cq.
  apply (Hinj _ q [0; 0; 0]%Z [3; 4; 5]%Z tt tt "Unix.execve not vailable");
    [do 17 right; left; reflexivity | exact Hq | reflexivity | exact Cq].
Defined.

(** C10.  Every OCaml-level name of the translation unit begins with
    [Unix.], and so does every message a stub raises. *)
Theorem names_and_messages_start_with_Unix (world : Type) (p : primitive world)
    (args : list value) (w : world) :
  In p (wasi_unavailable world) ->
  List.length args = arity p ->
  String.prefix "Unix." (camlname p) = true /\
  exists msg,
    call p args w = Some (Raises (Exn Invalid_argument msg), w) /\
    String.prefix "Unix." msg = true.
Proof.
  intros Hin Hlen; split; [apply camlname_Unix; exact Hin | ].
  exists (message p); split; [apply call_stub; assumption | ].
  apply prefix_app_l, camlname_Unix; exact Hin.
Qed.

Lemma names_and_messages_start_with_Unix_witness :
  In (UNAVAILABLE1 unit "unix_umask" "Unix.umask") (wasi_unavailable unit) /\
  List.length [18]%Z = arity (UNAVAILABLE1 unit "unix_umask" "Unix.umask") /\
  String.prefix "Unix." "Unix.umask" = true /\
  exists msg,
    call (UNAVAILABLE1 unit "unix_umask" "Unix.umask") [18]%Z tt
      = Some (Raises (Exn Invalid_argument msg), tt) /\
    String.prefix "Unix." msg = true.
Proof.
  assert (Hin : In (UNAVAILABLE1 unit "unix_umask" "Unix.umask") (wasi_unavailable unit))
    by (do 35 right; left; reflexivity).
  split; [exact Hin | ].
  split; [reflexivity | ].
  exact (names_and_messages_start_with_Unix unit _ [18]%Z tt Hin eq_refl).
Defined.

(** ** The bootstrap *)

Import Link.

(** C9.  [init] calls [caml_startup] once, with a vector of two slots: the
    second is the null pointer and the first is not; and when path
    discovery gave nothing, the first slot is the literal
    [/unknown/program/name]. *)
Theorem init_argv (pf : platform) :
  exists progname,
    init pf = [caml_startup [progname; NULL]] /\
    progname <> NULL /\
    (nothing_discovered pf -> progname = Literal "/unknown/program/name").
Proof.
  unfold init, nothing_discovered.
  destruct (readlink pf "/proc/self/exe" (repeat None (PATH_MAX pf)) (PATH_MAX pf))
    as [n buf'] eqn:Hread.
  destruct (APPLE pf), (getprogname pf) as [s | ], (LINUX pf);
    simpl; try destruct (Z.geb_spec n 0) as [Hge | Hlt]; simpl;
    eexists; (split; [reflexivity | split; [discriminate | ]]);
    intros [[Ha | Ha] [Hl | Hl]]; try discriminate; try reflexivity; lia.
Qed.

Lemma init_argv_witness :
  nothing_discovered linux_readlink_fails /\
  init linux_readlink_fails = [caml_startup [Literal "/unknown/program/name"; NULL]].
Proof.
  assert (Hnone : nothing_discovered linux_readlink_fails).
  { split; [left; reflexivity | right; simpl; lia]. }
  split; [exact Hnone | ].
  destruct (init_argv linux_readlink_fails) as (progname & Hinit & _ & Hfallback).
  rewrite Hinit, (Hfallback Hnone); reflexivity.
Defined.

(** When [readlink] succeeds on Linux, the first slot is the local buffer
    as [readlink] left it, not the fallback. *)
Example init_linux_readlink_ok :
  exists contents,
    init (linux_readlink_ok "/bin/prog") = [caml_startup [Buf contents; NULL]] /\
    firstn 9 contents = map Some (list_ascii_of_string "/bin/prog").
Proof. eexists; split; reflexivity. Qed.

(** * Further properties *)

(** ** Strings *)

Lemma list_ascii_of_append (s t : string) :
  list_ascii_of_string (s ++ t) =
  (list_ascii_of_string s ++ list_ascii_of_string t)%list.
Proof. induction s as [| c s IH]; simpl; [reflexivity | rewrite IH; reflexivity]. Qed.

Lemma list_ascii_inj (s t : string) :
  list_ascii_of_string s = list_ascii_of_string t -> s = t.
Proof.
  intros H.
  rewrite <- (string_of_list_ascii_of_string s), <- (string_of_list_ascii_of_string t), H.
  reflexivity.
Qed.

Lemma append_inv_tail (s1 s2 t : string) : s1 ++ t = s2 ++ t -> s1 = s2.
Proof.
  intros H; apply list_ascii_inj.
  apply (f_equal list_ascii_of_string) in H.
  rewrite !list_ascii_of_append in H.
  exact (app_inv_tail _ _ _ H).
Qed.

(** The two spellings of the suffix never give the same message, whatever
    names they are appended to. *)
Lemma spellings_apart (s1 s2 : string) :
  s1 ++ " not available" <> s2 ++ " not vailable".
Proof.
  intros H.
  apply (f_equal list_ascii_of_string) in H.
  rewrite !list_ascii_of_append in H.
  apply (f_equal (@rev ascii)) in H.
  rewrite !rev_app_distr in H; simpl in H.
  discriminate H.
Qed.

(** ** The macros *)

Lemma expansion_call (world : Type) (p : primitive world) (args : list value) (w : world) :
  expansion p ->
  List.length args = arity p ->
  call p args w = Some (Raises (Exn Invalid_argument (message p)), w).
Proof.
  intros [c n | c n | c n | c n | c n] Hlen; explicit_args args Hlen; reflexivity.
Qed.

Lemma stubs_are_expansions (world : Type) (p : primitive world) :
  In p (wasi_unavailable world) -> expansion p.
Proof. intros Hin; each_stub Hin; constructor. Qed.

Lemma raised_message_call (world : Type) (p : primitive world)
    (args : list value) (w : world) (msg : string) :
  expansion p ->
  option_map (fun r => raised_message (fst r)) (call p args w) = Some (Some msg) ->
  msg = message p.
Proof.
  intros Hp Hc.
  assert (Hlen : List.length args = arity p).
  { apply apply_defined_iff; unfold call in Hc.
    destruct (apply (code p) args) as [c | ]; [eexists; reflexivity | discriminate Hc]. }
  rewrite (expansion_call _ _ _ _ Hp Hlen) in Hc.
  unfold option_map, raised_message, raised, fst, exn_arg in Hc.
  injection Hc as Hc; symmetry; exact Hc.
Qed.

(** Whatever names a macro is given, the primitive it defines raises
    [Invalid_argument] from the state it was called in, on any arguments of
    the right number; its message starts with the OCaml-level name, and it
    is [<name> not available] exactly when the primitive does not take
    three parameters.  This covers [UNAVAILABLE4], which the file defines
    and never uses. *)
Theorem macro_contract (world : Type) (p : primitive world)
    (args : list value) (w : world) :
  expansion p ->
  List.length args = arity p ->
  exists msg,
    call p args w = Some (Raises (Exn Invalid_argument msg), w) /\
    String.prefix (camlname p) msg = true /\
    (msg = camlname p ++ " not available" <-> arity p <> 3).
Proof.
  intros Hp Hlen; exists (message p).
  split; [apply expansion_call; assumption | ].
  split; [apply message_prefix | ].
  unfold message, suffix.
  destruct (Nat.eqb_spec (arity p) 3) as [H3 | H3]; split; intros H;
    try reflexivity; try assumption; try contradiction.
  exfalso; symmetry in H; exact (spellings_apart _ _ H).
Qed.

Lemma macro_contract_witness :
  expansion (UNAVAILABLE4 unit "unix_socketpair" "Unix.socketpair") /\
  List.length [1; 2; 3; 4]%Z
    = arity (UNAVAILABLE4 unit "unix_socketpair" "Unix.socketpair") /\
  exists msg,
    call (UNAVAILABLE4 unit "unix_socketpair" "Unix.socketpair") [1; 2; 3; 4]%Z tt
      = Some (Raises (Exn Invalid_argument msg), tt) /\
    String.prefix "Unix.socketpair" msg = true /\
    (msg = "Unix.socketpair" ++ " not available" <-> 4 <> 3).
Proof.
  split; [constructor | ].
  split; [reflexivity | ].
  exact (macro_contract unit (UNAVAILABLE4 unit "unix_socketpair" "Unix.socketpair")
           [1; 2; 3; 4]%Z tt (expansion4 _ _) eq_refl).
Defined.

(** The message identifies the primitive: two primitives defined by the
    macros -- by the same one or by different ones, with any names -- that
    raise the same message have the same OCaml-level name, and either both
    take three parameters or neither does. *)
Theorem message_identifies_camlname (world : Type) (p q : primitive world)
    (args_p args_q : list value) (w_p w_q : world) (msg : string) :
  expansion p ->
  expansion q ->
  option_map (fun r => raised_message (fst r)) (call p args_p w_p) = Some (Some msg) ->
  option_map (fun r => raised_message (fst r)) (call q args_q w_q) = Some (Some msg) ->
  camlname p = camlname q /\ (arity p = 3 <-> arity q = 3).
Proof.
  intros Hp Hq Cp Cq.
  apply (raised_message_call _ _ _ _ _ Hp) in Cp.
  apply (raised_message_call _ _ _ _ _ Hq) in Cq.
  rewrite Cp in Cq; unfold message, suffix in Cq.
  destruct (Nat.eqb_spec (arity p) 3) as [P3 | P3],
           (Nat.eqb_spec (arity q) 3) as [Q3 | Q3].
  - split; [exact (append_inv_tail _ _ _ Cq) | tauto].
  - exfalso; symmetry in Cq; exact (spellings_apart _ _ Cq).
  - exfalso; exact (spellings_apart _ _ Cq).
  - split; [exact (append_inv_tail _ _ _ Cq) | tauto].
Qed.

Lemma message_identifies_camlname_witness :
  expansion (UNAVAILABLE1 unit "unix_nice" "Unix.nice") /\
  expansion (UNAVAILABLE1 unit "caml_unix_nice" "Unix.nice") /\
  camlname (UNAVAILABLE1 unit "unix_nice" "Unix.nice")
    = camlname (UNAVAILABLE1 unit "caml_unix_nice" "Unix.nice") /\
  (arity (UNAVAILABLE1 unit "unix_nice" "Unix.nice") = 3 <->
   arity (UNAVAILABLE1 unit "caml_unix_nice" "Unix.nice") = 3).
Proof.
  split; [constructor | ].
  split; [constructor | ].
  exact (message_identifies_camlname unit
           (UNAVAILABLE1 unit "unix_nice" "Unix.nice")
           (UNAVAILABLE1 unit "caml_unix_nice" "Unix.nice")
           [1]%Z [2]%Z tt tt "Unix.nice not available"
           (expansion1 _ _) (expansion1 _ _) eq_refl eq_refl).
Defined.

(** ** The translation unit *)

(** A C symbol resolves to a primitive exactly when that primitive is a
    member of the translation unit defined under that symbol: every one of
    the 36 symbols finds its own definition (no symbol is defined twice),
    and no other symbol resolves. *)
Theorem resolve_iff (world : Type) (sym : string) (p : primitive world) :
  resolve world sym = Some p <->
  In p (wasi_unavailable world) /\ cname p = sym.
Proof.
  split.
  - intros H; apply find_some in H; destruct H as [Hin Heq].
    split; [exact Hin | apply String.eqb_eq; exact Heq].
  - intros [Hin Heq]; subst sym; each_stub Hin; reflexivity.
Qed.

(** No stub takes four parameters, so [UNAVAILABLE4] defines nothing in
    this file: 22 stubs take one parameter, 9 take two, 4 take three and
    one takes five. *)
Theorem arities_in_use (world : Type) :
  Forall (fun p => arity p <> 4) (wasi_unavailable world) /\
  map (fun n => List.length (filter (fun p => Nat.eqb (arity p) n) (wasi_unavailable world)))
      [1; 2; 3; 4; 5] = [22; 9; 4; 0; 1].
Proof.
  split; [ | reflexivity].
  unfold wasi_unavailable; repeat constructor; discriminate.
Qed.

(** The stubs whose message is not [<name> not available] are exactly
    [unix_chown], [unix_dup2], [unix_execve] and [unix_execvpe]. *)
Theorem stubs_with_other_message (world : Type) (p : primitive world)
    (args : list value) (w : world) :
  In p (wasi_unavailable world) ->
  List.length args = arity p ->
  (call p args w <>
     Some (Raises (Exn Invalid_argument (Spec.spec_message (camlname p))), w)) <->
  In (cname p) ["unix_chown"; "unix_dup2"; "unix_execve"; "unix_execvpe"].
Proof.
  intros Hin Hlen.
  rewrite (call_stub _ _ _ _ Hin Hlen).
  unfold message, suffix, Spec.spec_message.
  assert (H3 : arity p = 3 <->
               In (cname p) ["unix_chown"; "unix_dup2"; "unix_execve"; "unix_execvpe"]).
  { clear Hlen; each_stub Hin; simpl; split; intros H;
      first [ discriminate H
            | tauto
            | repeat (destruct H as [H | H]; [discriminate H | ]); contradiction ]. }
  rewrite <- H3; clear H3.
  destruct (Nat.eqb_spec (arity p) 3) as [E | E]; split; intros H.
  - exact E.
  - intros Heq; injection Heq as Heq; symmetry in Heq; exact (spellings_apart _ _ Heq).
  - exfalso; apply H; reflexivity.
  - contradiction.
Qed.

Lemma stubs_with_other_message_witness :
  In (UNAVAILABLE3 unit "unix_execvpe" "Unix.execvpe") (wasi_unavailable unit) /\
  List.length [1; 2; 3]%Z = arity (UNAVAILABLE3 unit "unix_execvpe" "Unix.execvpe") /\
  ((call (UNAVAILABLE3 unit "unix_execvpe" "Unix.execvpe") [1; 2; 3]%Z tt <>
      Some (Raises (Exn Invalid_argument (Spec.spec_message "Unix.execvpe")), tt)) <->
   In "unix_execvpe" ["unix_chown"; "unix_dup2"; "unix_execve"; "unix_execvpe"]).
Proof.
  assert (Hin : In (UNAVAILABLE3 unit "unix_execvpe" "Unix.execvpe") (wasi_unavailable unit))
    by (do 19 right; left; reflexivity).
  split; [exact Hin | ].
  split; [reflexivity | ].
  exact (stubs_with_other_message unit _ [1; 2; 3]%Z tt Hin eq_refl).
Defined.

(** ** The bootstrap, case by case *)

Lemma In_firstn {A : Type} (n : nat) (l : list A) (x : A) :
  In x (firstn n l) -> In x l.
Proof. intros H; rewrite <- (firstn_skipn n l); apply in_or_app; left; exact H. Qed.

Lemma In_skipn {A : Type} (n : nat) (l : list A) (x : A) :
  In x (skipn n l) -> In x l.
Proof. intros H; rewrite <- (firstn_skipn n l); apply in_or_app; right; exact H. Qed.

(** [init] in one equation: the Linux result when there is one, else the
    Apple result when there is one, else the literal. *)
Lemma init_eq (pf : platform) :
  init pf =
  [caml_startup
     [ (let r := readlink pf "/proc/self/exe" (repeat None (PATH_MAX pf)) (PATH_MAX pf) in
        if LINUX pf && (fst r >=? 0)%Z then Buf (snd r)
        else match (if APPLE pf then getprogname pf else None) with
             | Some s => Static s
             | None => Literal "/unknown/program/name"
             end);
       NULL ]].
Proof.
  unfold init.
  destruct (readlink pf "/proc/self/exe" (repeat None (PATH_MAX pf)) (PATH_MAX pf))
    as [n buf'].
  destruct (LINUX pf), (APPLE pf), (getprogname pf) as [s | ]; simpl;
    try destruct (n >=? 0)%Z; reflexivity.
Qed.

(** On Linux a [readlink] that does not fail decides: whatever it left in
    the buffer is handed over as it is, also when it returned 0 and also
    when the Apple branch had found a name before.  [init] itself writes
    nothing into the buffer. *)
Theorem init_readlink_success (pf : platform) (n : Z) (contents : list cell) :
  LINUX pf = true ->
  readlink pf "/proc/self/exe" (repeat None (PATH_MAX pf)) (PATH_MAX pf) = (n, contents) ->
  (0 <= n)%Z ->
  init pf = [caml_startup [Buf contents; NULL]].
Proof.
  intros Hl Hr Hn; rewrite init_eq, Hl, Hr; simpl.
  destruct (Z.geb_spec n 0); [reflexivity | lia].
Qed.

Lemma init_readlink_success_witness :
  LINUX (Platform true true 8 (Some "prog") (fun _ buf _ => (0%Z, buf))) = true /\
  (fun _ buf _ => (0%Z, buf)) "/proc/self/exe" (repeat (None : cell) 8) 8
    = (0%Z, repeat (None : cell) 8) /\
  (0 <= 0)%Z /\
  init (Platform true true 8 (Some "prog") (fun _ buf _ => (0%Z, buf)))
    = [caml_startup [Buf (repeat None 8); NULL]].
Proof.
  split; [reflexivity | ].
  split; [reflexivity | ].
  split; [lia | ].
  apply (init_readlink_success
           (Platform true true 8 (Some "prog") (fun _ buf _ => (0%Z, buf)))
           0%Z (repeat None 8)); [reflexivity | reflexivity | lia].
Defined.

(** The name [getprogname] gives is used when the Apple branch is compiled
    in and the Linux branch is compiled out or its [readlink] failed. *)
Theorem init_getprogname (pf : platform) (s : string) :
  APPLE pf = true ->
  getprogname pf = Some s ->
  (LINUX pf = false \/
   (fst (readlink pf "/proc/self/exe" (repeat None (PATH_MAX pf)) (PATH_MAX pf)) < 0)%Z) ->
  init pf = [caml_startup [Static s; NULL]].
Proof.
  intros Ha Hg Hl; rewrite init_eq, Ha, Hg; simpl.
  destruct Hl as [Hl | Hl]; [rewrite Hl; reflexivity | ].
  destruct (Z.geb_spec
              (fst (readlink pf "/proc/self/exe" (repeat None (PATH_MAX pf)) (PATH_MAX pf))) 0);
    [lia | rewrite andb_false_r; reflexivity].
Qed.

Lemma init_getprogname_witness :
  APPLE (Platform true false 1024 (Some "a.out") (fun _ buf _ => (0%Z, buf))) = true /\
  getprogname (Platform true false 1024 (Some "a.out") (fun _ buf _ => (0%Z, buf)))
    = Some "a.out" /\
  LINUX (Platform true false 1024 (Some "a.out") (fun _ buf _ => (0%Z, buf))) = false /\
  init (Platform true false 1024 (Some "a.out") (fun _ buf _ => (0%Z, buf)))
    = [caml_startup [Static "a.out"; NULL]].
Proof.
  split; [reflexivity | ].
  split; [reflexivity | ].
  split; [reflexivity | ].
  apply (init_getprogname
           (Platform true false 1024 (Some "a.out") (fun _ buf _ => (0%Z, buf))) "a.out");
    [reflexivity | reflexivity | left; reflexivity].
Defined.

(** The literal [/unknown/program/name] is passed exactly when path
    discovery gave nothing: a name found by either branch is never
    replaced by it. *)
Theorem init_fallback_iff (pf : platform) :
  init pf = [caml_startup [Literal "/unknown/program/name"; NULL]] <->
  nothing_discovered pf.
Proof.
  rewrite init_eq; unfold nothing_discovered; simpl.
  destruct (LINUX pf), (APPLE pf), (getprogname pf) as [s | ]; simpl;
    try destruct (Z.geb_spec
           (fst (readlink pf "/proc/self/exe" (repeat None (PATH_MAX pf)) (PATH_MAX pf))) 0)
      as [Hge | Hlt];
    split; intros H;
    first [ reflexivity
          | discriminate H
          | split; [(left; reflexivity) || (right; reflexivity)
                   | (left; reflexivity) || (right; assumption)]
          | destruct H as [[Ha | Ha] [Hl | Hl]]; try discriminate; lia ].
Qed.

(** [init] looks at the operating system through one query at most per
    branch: with the Linux branch compiled out [readlink] and [PATH_MAX]
    play no part, with the Apple branch compiled out [getprogname] plays
    none, and of [readlink] only its answer for [/proc/self/exe] on a fresh
    buffer of [PATH_MAX] cells matters. *)
Theorem init_queries (pf pf' : platform) :
  APPLE pf = APPLE pf' ->
  LINUX pf = LINUX pf' ->
  (APPLE pf = true -> getprogname pf = getprogname pf') ->
  (LINUX pf = true ->
   readlink pf "/proc/self/exe" (repeat None (PATH_MAX pf)) (PATH_MAX pf) =
   readlink pf' "/proc/self/exe" (repeat None (PATH_MAX pf')) (PATH_MAX pf')) ->
  init pf = init pf'.
Proof.
  intros Ha Hl Hg Hr; rewrite !init_eq, <- Ha, <- Hl.
  destruct (LINUX pf); [rewrite (Hr eq_refl) | ];
    (destruct (APPLE pf); [rewrite (Hg eq_refl) | ]); reflexivity.
Qed.

Lemma init_queries_witness :
  init (Platform false true 16 None
          (fun path buf _ => if String.eqb path "/proc/self/exe"
                             then (3%Z, buf) else ((-1)%Z, buf))) =
  init (Platform false true 16 (Some "unused") (fun _ buf _ => (3%Z, buf))).
Proof.
  apply (init_queries
           (Platform false true 16 None
              (fun path buf _ => if String.eqb path "/proc/self/exe"
                                 then (3%Z, buf) else ((-1)%Z, buf)))
           (Platform false true 16 (Some "unused") (fun _ buf _ => (3%Z, buf))));
    [reflexivity | reflexivity | discriminate | reflexivity].
Defined.

(** ** The buffer handed to the runtime *)

Example c_string_terminated :
  c_string [Some "a"%char; Some "b"%char; Some zero; None] = Some "ab".
Proof. reflexivity. Qed.

Lemma c_string_unterminated (l : list ascii) (r : list cell) :
  (forall c, In c l -> c <> zero) ->
  (forall x, In x r -> x = None) ->
  c_string (map Some l ++ r) = None.
Proof.
  intros Hl Hr; induction l as [| c l IH]; simpl.
  - destruct r as [| x r]; [reflexivity | ].
    rewrite (Hr x (or_introl eq_refl)); reflexivity.
  - assert (Hc : Ascii.eqb c zero = false)
      by (apply Ascii.eqb_neq, Hl; left; reflexivity).
    rewrite Hc, IH; [reflexivity | ].
    intros d Hd; apply Hl; right; exact Hd.
Qed.

(** On a Linux host whose [readlink] behaves as POSIX says, the buffer
    [init] passes as [argv[0]] holds no C string: the bytes of the path are
    followed by no NUL -- [readlink] appends none and [init] adds none --
    but by cells of the array that were never written, or, for a path of
    [PATH_MAX] bytes or more, by the end of the array.  This holds for
    every path free of NUL bytes and every [PATH_MAX]. *)
Theorem init_linux_unterminated (path_max : nat) (target : string) :
  (forall c, In c (list_ascii_of_string target) -> c <> zero) ->
  exists contents,
    init (linux_host path_max target) = [caml_startup [Buf contents; NULL]] /\
    firstn (Nat.min path_max (String.length target)) contents =
      map Some (firstn path_max (list_ascii_of_string target)) /\
    c_string contents = None.
Proof.
  intros Hnul.
  set (written := firstn path_max (list_ascii_of_string target)).
  exists (map Some written ++ skipn (List.length written) (repeat None path_max))%list.
  split; [ | split].
  - rewrite init_eq; unfold linux_host, posix_readlink; simpl.
    fold written.
    destruct (Z.geb_spec (Z.of_nat (List.length written)) 0); [reflexivity | lia].
  - assert (Hlen : Nat.min path_max (String.length target) = List.length (map Some written)).
    { rewrite length_map; unfold written; rewrite length_firstn.
      f_equal; clear; induction target as [| c t IH]; simpl; congruence. }
    rewrite Hlen, firstn_app, Nat.sub_diag, firstn_all; simpl.
    apply app_nil_r.
  - apply c_string_unterminated.
    + intros c Hc; apply Hnul; exact (In_firstn _ _ _ Hc).
    + intros x Hx; apply In_skipn in Hx; exact (repeat_spec _ _ _ Hx).
Qed.

Lemma init_linux_unterminated_witness :
  (forall c, In c (list_ascii_of_string "/usr/bin/prog") -> c <> zero) /\
  exists contents,
    init (linux_host 4096 "/usr/bin/prog") = [caml_startup [Buf contents; NULL]] /\
    firstn (Nat.min 4096 (String.length "/usr/bin/prog")) contents =
      map Some (firstn 4096 (list_ascii_of_string "/usr/bin/prog")) /\
    c_string contents = None.
Proof.
  assert (Hnul : forall c, In c (list_ascii_of_string "/usr/bin/prog") -> c <> zero).
  { simpl; intros c H.
    repeat (destruct H as [H | H]; [subst c; discriminate | ]); contradiction. }
  split; [exact Hnul | ].
  exact (init_linux_unterminated 4096 "/usr/bin/prog" Hnul).
Defined.
